(** * The impedance-matcher sketch (src/main.cpp), embedded in Rocq

    The sketch polls a mode switch once per [loop] iteration and drives two
    servos, either from two potentiometers (MANUAL) or from a simulated VSWR
    counter (AUTOMATED).

    Conventions of the embedding:
    - C [int] and [long] values are integers of [Z]; [/] and [%] are C's
      truncating operators, [Z.quot] and [Z.rem].  Overflow is not
      modelled: on every board the sketch can reach the counter stays in
      [0,100), and the product inside [map] fits a 32-bit [long] for every
      input considered below.
    - The globals of the sketch and the devices it talks to form one record,
      [Board]; every function of the sketch is a computation in the state
      monad over it.
    - What the pins read during one [loop] iteration is a [Pins] snapshot. *)

From Stdlib Require Import ZArith List String Lia.
Import ListNotations.
Local Open Scope string_scope.
Local Open Scope list_scope.
Local Open Scope Z_scope.

(** ** The Arduino core, as far as the sketch uses it *)
Module Arduino.

Definition HIGH : Z := 1.
Definition LOW : Z := 0.
Definition INPUT_PULLUP : Z := 2.

Definition LONG_MIN : Z := - 2 ^ 31.
Definition LONG_MAX : Z := 2 ^ 31 - 1.

(** [map] is not defined in main.cpp: it comes with [#include <Arduino.h>].
    The Arduino reference gives its whole body,
<<
    long map(long x, long in_min, long in_max, long out_min, long out_max) {
      return (x - in_min) * (out_max - out_min) / (in_max - in_min) + out_min;
    }
>>
    and notes that it does not constrain its result to the output range. *)
Definition map (x in_min in_max out_min out_max : Z) : Z :=
  Z.quot ((x - in_min) * (out_max - out_min)) (in_max - in_min) + out_min.

(** [constrain(x, a, b)] of the Arduino core.  The sketch never calls it;
    it is here to write down the clamp the specification speaks of. *)
Definition constrain (x a b : Z) : Z :=
  if x <? a then a else if b <? x then b else x.

End Arduino.
Import Arduino.

(** ** Globals and devices *)

(** [enum State { AUTOMATED, MANUAL };] *)
Inductive State : Set := AUTOMATED | MANUAL.

(** A [Servo] object: the pin it is attached to and the last value handed
    to [write] (what the library then does with that value is not modelled). *)
Record Servo : Set := mkServo {
  servo_pin : option Z;
  servo_written : option Z
}.

(** One call on [Serial]. *)
Inductive SerialItem : Set :=
| print_str (s : string)
| print_int (n : Z)
| println_int (n : Z).

Record Board : Set := mkBoard {
  state : State;                (* State state *)
  prev_vswr : Z;                (* int prev_vswr *)
  tx_servo : Servo;             (* Servo tx_servo *)
  ant_servo : Servo;            (* Servo ant_servo *)
  Serial : list SerialItem;     (* everything printed, oldest first *)
  serial_baud : option Z;       (* set by Serial.begin *)
  pin_modes : list (Z * Z);     (* pinMode calls, newest first *)
  elapsed : Z;                  (* milliseconds spent in delay *)
  calls : list string           (* instrumentation: the sketch functions
                                   entered so far, oldest first *)
}.

(** What the input pins read during one iteration of [loop]. *)
Record Pins : Type := mkPins {
  digitalRead : Z -> Z;
  analogRead : Z -> Z
}.

(** Pin assignment. *)
Definition tx_dialPin : Z := 39.
Definition ant_dialPin : Z := 38.
Definition switchPin : Z := 32.
Definition tx_servoPin : Z := 0.
Definition ant_servoPin : Z := 23.

(** The globals as their initialisers leave them, before [setup] runs. *)
Definition power_on : Board :=
  {| state := MANUAL;
     prev_vswr := 0;
     tx_servo := mkServo None None;
     ant_servo := mkServo None None;
     Serial := [];
     serial_baud := None;
     pin_modes := [];
     elapsed := 0;
     calls := [] |}.

(** ** The state monad over [Board] *)

Definition M (A : Type) : Type := Board -> A * Board.

Definition ret {A : Type} (a : A) : M A := fun b => (a, b).

Definition bind {A B : Type} (m : M A) (k : A -> M B) : M B :=
  fun b => let (a, b') := m b in k a b'.

Notation "x <- m ;; k" := (bind m (fun x => k))
  (at level 61, m at next level, right associativity).
Notation "m ;; k" := (bind m (fun _ => k))
  (at level 61, right associativity).

(** The board an action leaves behind, and the value it returns. *)
Definition exec {A : Type} (m : M A) (b : Board) : Board := snd (m b).
Definition eval {A : Type} (m : M A) (b : Board) : A := fst (m b).

(** Field updates. *)
Definition set_state (v : State) (b : Board) : Board :=
  mkBoard v (prev_vswr b) (tx_servo b) (ant_servo b) (Serial b)
          (serial_baud b) (pin_modes b) (elapsed b) (calls b).
Definition set_prev_vswr (v : Z) (b : Board) : Board :=
  mkBoard (state b) v (tx_servo b) (ant_servo b) (Serial b)
          (serial_baud b) (pin_modes b) (elapsed b) (calls b).
Definition set_tx_servo (v : Servo) (b : Board) : Board :=
  mkBoard (state b) (prev_vswr b) v (ant_servo b) (Serial b)
          (serial_baud b) (pin_modes b) (elapsed b) (calls b).
Definition set_ant_servo (v : Servo) (b : Board) : Board :=
  mkBoard (state b) (prev_vswr b) (tx_servo b) v (Serial b)
          (serial_baud b) (pin_modes b) (elapsed b) (calls b).
Definition set_Serial (v : list SerialItem) (b : Board) : Board :=
  mkBoard (state b) (prev_vswr b) (tx_servo b) (ant_servo b) v
          (serial_baud b) (pin_modes b) (elapsed b) (calls b).
Definition set_serial_baud (v : option Z) (b : Board) : Board :=
  mkBoard (state b) (prev_vswr b) (tx_servo b) (ant_servo b) (Serial b)
          v (pin_modes b) (elapsed b) (calls b).
Definition set_pin_modes (v : list (Z * Z)) (b : Board) : Board :=
  mkBoard (state b) (prev_vswr b) (tx_servo b) (ant_servo b) (Serial b)
          (serial_baud b) v (elapsed b) (calls b).
Definition set_elapsed (v : Z) (b : Board) : Board :=
  mkBoard (state b) (prev_vswr b) (tx_servo b) (ant_servo b) (Serial b)
          (serial_baud b) (pin_modes b) v (calls b).
Definition set_calls (v : list string) (b : Board) : Board :=
  mkBoard (state b) (prev_vswr b) (tx_servo b) (ant_servo b) (Serial b)
          (serial_baud b) (pin_modes b) (elapsed b) v.

Definition modify (f : Board -> Board) : M unit := fun b => (tt, f b).
Definition read {A : Type} (f : Board -> A) : M A := fun b => (f b, b).

(** ** Device operations *)

Definition Servo_attach (s : Servo) (pin : Z) : Servo :=
  mkServo (Some pin) (servo_written s).
Definition Servo_write (s : Servo) (value : Z) : Servo :=
  mkServo (servo_pin s) (Some value).

Definition tx_servo_attach (pin : Z) : M unit :=
  modify (fun b => set_tx_servo (Servo_attach (tx_servo b) pin) b).
Definition ant_servo_attach (pin : Z) : M unit :=
  modify (fun b => set_ant_servo (Servo_attach (ant_servo b) pin) b).
Definition tx_servo_write (value : Z) : M unit :=
  modify (fun b => set_tx_servo (Servo_write (tx_servo b) value) b).
Definition ant_servo_write (value : Z) : M unit :=
  modify (fun b => set_ant_servo (Servo_write (ant_servo b) value) b).

Definition Serial_begin (baud : Z) : M unit :=
  modify (set_serial_baud (Some baud)).
Definition Serial_emit (i : SerialItem) : M unit :=
  modify (fun b => set_Serial (Serial b ++ [i]) b).

Definition pinMode (pin mode : Z) : M unit :=
  modify (fun b => set_pin_modes ((pin, mode) :: pin_modes b) b).

Definition delay (ms : Z) : M unit :=
  modify (fun b => set_elapsed (elapsed b + ms) b).

(** Instrumentation: a sketch function notes its own name on entry. *)
Definition enter (f : string) : M unit :=
  modify (fun b => set_calls (calls b ++ [f]) b).

(** ** The functions of the sketch *)

Definition setup : M unit :=
  enter "setup" ;;
  tx_servo_attach tx_servoPin ;;
  ant_servo_attach ant_servoPin ;;
  Serial_begin 9600 ;;
  pinMode switchPin INPUT_PULLUP.

Definition parseSwitchState (hw : Pins) : M State :=
  enter "parseSwitchState" ;;
  let switchState := digitalRead hw switchPin in
  if switchState =? HIGH then ret MANUAL else ret AUTOMATED.

Definition get_vswr : M Z :=
  enter "get_vswr" ;;
  p <- read prev_vswr ;;
  modify (set_prev_vswr (Z.rem (p + 3) 100)) ;;
  read prev_vswr.

Definition controlServosAutomated : M unit :=
  enter "controlServosAutomated" ;;
  vswr <- get_vswr ;;
  let tx_angle := map vswr 0 1023 0 180 in
  tx_servo_write tx_angle ;;
  ant_servo_write 0 ;;
  Serial_emit (print_str "AUTOMATED: vswr=") ;;
  Serial_emit (print_int vswr) ;;
  Serial_emit (print_str ", tx_angle=") ;;
  Serial_emit (println_int tx_angle).

Definition controlServosManual (hw : Pins) : M unit :=
  enter "controlServosManual" ;;
  let tx_dial := analogRead hw tx_dialPin in
  let ant_dial := analogRead hw ant_dialPin in
  let tx_angle := map tx_dial 0 1023 0 180 in
  let ant_angle := map ant_dial 0 1023 0 180 in
  tx_servo_write tx_angle ;;
  ant_servo_write ant_angle ;;
  Serial_emit (print_str "MANUAL: tx_dial=") ;;
  Serial_emit (print_int tx_dial) ;;
  Serial_emit (print_str ", tx_angle=") ;;
  Serial_emit (print_int tx_angle) ;;
  Serial_emit (print_str ", ant_dial=") ;;
  Serial_emit (print_int ant_dial) ;;
  Serial_emit (print_str ", ant_angle=") ;;
  Serial_emit (println_int ant_angle).

Definition State_eqb (a b : State) : bool :=
  match a, b with
  | AUTOMATED, AUTOMATED | MANUAL, MANUAL => true
  | _, _ => false
  end.

Definition loop (hw : Pins) : M unit :=
  enter "loop" ;;
  s <- parseSwitchState hw ;;
  modify (set_state s) ;;
  st <- read state ;;
  (if State_eqb st AUTOMATED then controlServosAutomated
   else if State_eqb st MANUAL then controlServosManual hw
   else ret tt) ;;
  delay 1000.

(** ** Running the sketch *)

(** The board when [loop] is first entered. *)
Definition boot : Board := exec setup power_on.

(** One [loop] iteration per snapshot, in order. *)
Fixpoint run (hws : list Pins) (b : Board) : Board :=
  match hws with
  | [] => b
  | hw :: rest => run rest (exec (loop hw) b)
  end.

(** The boards the sketch can be in between two [loop] iterations. *)
Inductive reachable : Board -> Prop :=
| reach_boot : reachable boot
| reach_loop (hw : Pins) (b : Board) :
    reachable b -> reachable (exec (loop hw) b).

(** [k] calls of [get_vswr] in a row. *)
Fixpoint get_vswr_times (k : nat) (b : Board) : Board :=
  match k with
  | O => b
  | S k' => exec get_vswr (get_vswr_times k' b)
  end.

(** How often function [f] of the sketch has been entered. *)
Definition invocations (f : string) (b : Board) : nat :=
  List.length (List.filter (String.eqb f) (calls b)).

(** The scaling step as the specification words it: clamp the raw value
    into [0,1023], then map linearly. *)
Definition clamp_then_map (r : Z) : Z :=
  map (constrain r 0 1023) 0 1023 0 180.

(** The counter invariant. *)
Definition vswr_in_range (b : Board) : Prop := 0 <= prev_vswr b < 100.

(** The sketch functions one [loop] iteration enters, in order, when it
    takes the automated branch and when it takes the manual one. *)
Definition automated_cycle_calls : list string :=
  ["loop"; "parseSwitchState"; "controlServosAutomated"; "get_vswr"].

Definition manual_cycle_calls : list string :=
  ["loop"; "parseSwitchState"; "controlServosManual"].

(** Pin snapshots used as concrete inputs: the switch closed (LOW), and the
    switch open (HIGH) with the tx dial at mid-travel and the ant dial at
    its end stop. *)
Definition switch_closed : Pins := mkPins (fun _ => LOW) (fun _ => 0).
Definition switch_open : Pins :=
  mkPins (fun _ => HIGH) (fun pin => if pin =? tx_dialPin then 512 else 1023).

(** ** Vocabulary for whole runs *)

(** Whether the iteration run on snapshot [hw] takes the manual branch:
    the test [switchState == HIGH] of [parseSwitchState]. *)
Definition reads_high (hw : Pins) : bool := digitalRead hw switchPin =? HIGH.

(** How many iterations of a run take the automated branch, and how many
    the manual one. *)
Definition automated_cycles (hws : list Pins) : nat :=
  List.length (List.filter (fun hw => negb (reads_high hw)) hws).
Definition manual_cycles (hws : list Pins) : nat :=
  List.length (List.filter reads_high hws).



(** A [Serial] call that ends a line. *)
Definition is_println (i : SerialItem) : bool :=
  match i with
  | println_int _ => true
  | _ => false
  end.

(** * Properties *)

(** ** The scaling step [map(_, 0, 1023, 0, 180)] *)

Lemma map_scale_quot (r : Z) : map r 0 1023 0 180 = Z.quot (r * 180) 1023.
Proof.
  unfold map. now rewrite Z.sub_0_r, Z.add_0_r.
Qed.

Lemma map_scale_nonneg (r : Z) :
  0 <= r -> map r 0 1023 0 180 = r * 180 / 1023.
Proof.
  intros Hr. rewrite map_scale_quot. apply Z.quot_div_nonneg; lia.
Qed.

Lemma map_scale_neg (r : Z) :
  r < 0 -> map r 0 1023 0 180 = - ((- r) * 180 / 1023).
Proof.
  intros Hr. rewrite map_scale_quot.
  replace (r * 180) with (- ((- r) * 180)) by lia.
  rewrite Z.quot_opp_l by lia.
  f_equal. apply Z.quot_div_nonneg; lia.
Qed.

(** C1. For a raw sample [r] in [0,1023] the scaling step returns
    [floor (r * 180 / 1023)], and that angle lies in [0,180].  (The product
    formed on the way fits a 32-bit [long].) *)
Theorem map_in_range_is_floor (r : Z) :
  0 <= r <= 1023 ->
  map r 0 1023 0 180 = r * 180 / 1023
  /\ 0 <= map r 0 1023 0 180 <= 180
  /\ LONG_MIN <= (r - 0) * (180 - 0) <= LONG_MAX.
Proof.
  intros [Hlo Hhi].
  rewrite (map_scale_nonneg r Hlo).
  repeat split.
  - apply Z.div_pos; lia.
  - apply Z.div_le_upper_bound; lia.
  - unfold LONG_MIN. lia.
  - unfold LONG_MAX. lia.
Qed.

Lemma map_in_range_is_floor_witness :
  0 <= 512 <= 1023 /\ map 512 0 1023 0 180 = 512 * 180 / 1023.
Proof.
  split; [lia | apply (map_in_range_is_floor 512); lia].
Defined.

(** C2, as stated, fails: the scaling step does not clamp.  A raw value of
    -50 gives -8, not 0, and 2000 gives 351, not 180; neither agrees with
    clamping first. *)
Lemma map_does_not_clamp :
  map (-50) 0 1023 0 180 = -8
  /\ map (-50) 0 1023 0 180 <> 0
  /\ map (-50) 0 1023 0 180 <> clamp_then_map (-50)
  /\ map 2000 0 1023 0 180 = 351
  /\ map 2000 0 1023 0 180 <> 180
  /\ map 2000 0 1023 0 180 <> clamp_then_map 2000.
Proof.
  repeat split; try reflexivity; vm_compute; discriminate.
Qed.

(** C2, amended.  Outside [0,1023] the scaling step applies the same linear
    formula with C's truncation toward zero and no clamp (as long as the
    product fits a 32-bit [long]): the result is [<= 0] below the range and
    [>= 180] above it, and it coincides with clamp-then-map exactly for
    [-5 <= r <= 1028]. *)
Theorem map_out_of_range_unclamped (r : Z) :
  r < 0 \/ 1023 < r ->
  LONG_MIN <= r * 180 <= LONG_MAX ->
  map r 0 1023 0 180 = Z.quot (r * 180) 1023
  /\ (r < 0 -> map r 0 1023 0 180 = - ((- r) * 180 / 1023)
              /\ map r 0 1023 0 180 <= 0)
  /\ (1023 < r -> map r 0 1023 0 180 = r * 180 / 1023
                 /\ 180 <= map r 0 1023 0 180)
  /\ (map r 0 1023 0 180 = clamp_then_map r <-> -5 <= r <= 1028).
Proof.
  intros Hout _.
  split; [apply map_scale_quot|].
  split; [|split].
  - intros Hneg. rewrite (map_scale_neg r Hneg). split; [reflexivity|].
    assert (0 <= - r * 180 / 1023) by (apply Z.div_pos; lia). lia.
  - intros Hbig. rewrite map_scale_nonneg by lia. split; [reflexivity|].
    apply Z.div_le_lower_bound; lia.
  - unfold clamp_then_map, constrain.
    destruct (Z.ltb_spec r 0) as [Hneg|Hnn].
    + change (map 0 0 1023 0 180) with 0.
      rewrite (map_scale_neg r Hneg).
      pose proof (Z.div_small_iff (- r * 180) 1023 ltac:(lia)) as Hs.
      split; intros H.
      * assert (- r * 180 / 1023 = 0) as H0 by lia.
        apply Hs in H0. lia.
      * assert (- r * 180 / 1023 = 0) as H0 by (apply Hs; lia).
        lia.
    + destruct (Z.ltb_spec 1023 r) as [Hbig|Hin]; [|lia].
      change (map 1023 0 1023 0 180) with 180.
      rewrite map_scale_nonneg by lia.
      split; intros H.
      * assert (r * 180 < 1023 * (180 + 1)).
        { rewrite <- H at 2. apply Z.mul_succ_div_gt. lia. }
        lia.
      * apply Z.le_antisymm.
        -- apply Z.lt_succ_r. apply Z.div_lt_upper_bound; lia.
        -- apply Z.div_le_lower_bound; lia.
Qed.

Lemma map_out_of_range_unclamped_witness :
  map 2000 0 1023 0 180 = Z.quot (2000 * 180) 1023
  /\ 180 <= map 2000 0 1023 0 180.
Proof.
  assert (Hout : 2000 < 0 \/ 1023 < 2000) by lia.
  assert (Hfit : LONG_MIN <= 2000 * 180 <= LONG_MAX)
    by (unfold LONG_MIN, LONG_MAX; lia).
  destruct (map_out_of_range_unclamped 2000 Hout Hfit) as [Hq [_ [Hbig _]]].
  split; [exact Hq | apply Hbig; lia].
Defined.

(** ** The signal simulator [get_vswr] *)

Lemma get_vswr_returns (b : Board) :
  eval get_vswr b = Z.rem (prev_vswr b + 3) 100.
Proof. reflexivity. Qed.

Lemma get_vswr_stores (b : Board) :
  prev_vswr (exec get_vswr b) = Z.rem (prev_vswr b + 3) 100.
Proof. reflexivity. Qed.

Lemma rem_step_nonneg (c : Z) :
  0 <= c -> Z.rem (c + 3) 100 = (c + 3) mod 100.
Proof.
  intros Hc. apply Z.rem_mod_nonneg; lia.
Qed.

Lemma get_vswr_keeps_range (b : Board) :
  vswr_in_range b -> vswr_in_range (exec get_vswr b).
Proof.
  unfold vswr_in_range. intros Hb.
  rewrite get_vswr_stores, rem_step_nonneg by lia.
  apply Z.mod_pos_bound. lia.
Qed.

Lemma get_vswr_times_range (k : nat) (b : Board) :
  vswr_in_range b -> vswr_in_range (get_vswr_times k b).
Proof.
  intros Hb. induction k as [|k IH]; simpl.
  - exact Hb.
  - now apply get_vswr_keeps_range.
Qed.

Lemma get_vswr_times_value (k : nat) (b : Board) :
  vswr_in_range b ->
  prev_vswr (get_vswr_times k b) = (prev_vswr b + 3 * Z.of_nat k) mod 100.
Proof.
  intros Hb. induction k as [|k IH].
  - simpl. rewrite Z.add_0_r. symmetry. apply Z.mod_small. exact Hb.
  - pose proof (get_vswr_times_range k b Hb) as Hk.
    unfold vswr_in_range in Hk.
    cbn [get_vswr_times].
    rewrite get_vswr_stores, rem_step_nonneg by lia.
    rewrite IH, Z.add_mod_idemp_l by lia.
    f_equal. lia.
Qed.

Lemma power_on_in_range : vswr_in_range power_on.
Proof. unfold vswr_in_range. simpl. lia. Qed.

(** C3. The counter is 0 at startup; after [k] calls of the simulator the
    stored value is [(3k) mod 100], and the call that makes it [k + 1]
    returns [(3 (k + 1)) mod 100], the value it stores.  After 34 calls the
    value is 2. *)
Theorem get_vswr_after_k_calls :
  prev_vswr power_on = 0
  /\ (forall k : nat,
        prev_vswr (get_vswr_times k power_on) = (3 * Z.of_nat k) mod 100
        /\ eval get_vswr (get_vswr_times k power_on)
           = (3 * Z.of_nat (S k)) mod 100
        /\ eval get_vswr (get_vswr_times k power_on)
           = prev_vswr (get_vswr_times (S k) power_on))
  /\ prev_vswr (get_vswr_times 34 power_on) = 2.
Proof.
  split; [reflexivity|]. split; [|reflexivity].
  intros k.
  assert (Hk : forall n, prev_vswr (get_vswr_times n power_on)
                         = (3 * Z.of_nat n) mod 100).
  { intros n. now rewrite get_vswr_times_value by apply power_on_in_range. }
  split; [apply Hk|]. split.
  - rewrite <- Hk. reflexivity.
  - reflexivity.
Qed.

(** ** One iteration of [loop], by what the switch reads *)

Lemma parseSwitchState_returns (hw : Pins) (b : Board) :
  eval (parseSwitchState hw) b
  = if digitalRead hw switchPin =? HIGH then MANUAL else AUTOMATED.
Proof.
  unfold eval, parseSwitchState, bind. simpl.
  now destruct (digitalRead hw switchPin =? HIGH).
Qed.

Lemma loop_when_high (hw : Pins) (b : Board) :
  digitalRead hw switchPin = HIGH ->
  exec (loop hw) b
  = exec (delay 1000)
      (exec (controlServosManual hw)
         (set_state MANUAL
            (exec (enter "parseSwitchState") (exec (enter "loop") b)))).
Proof.
  intros Hsw. unfold exec, loop, parseSwitchState, bind. simpl.
  rewrite Hsw. reflexivity.
Qed.

Lemma loop_when_not_high (hw : Pins) (b : Board) :
  digitalRead hw switchPin <> HIGH ->
  exec (loop hw) b
  = exec (delay 1000)
      (exec controlServosAutomated
         (set_state AUTOMATED
            (exec (enter "parseSwitchState") (exec (enter "loop") b)))).
Proof.
  intros Hsw. unfold exec, loop, parseSwitchState, bind. simpl.
  apply Z.eqb_neq in Hsw. rewrite Hsw. reflexivity.
Qed.

Lemma controlServosManual_counter (hw : Pins) (b : Board) :
  prev_vswr (exec (controlServosManual hw) b) = prev_vswr b.
Proof. reflexivity. Qed.

Lemma controlServosAutomated_counter (b : Board) :
  prev_vswr (exec controlServosAutomated b) = Z.rem (prev_vswr b + 3) 100.
Proof. reflexivity. Qed.

Lemma loop_counter (hw : Pins) (b : Board) :
  prev_vswr (exec (loop hw) b)
  = if digitalRead hw switchPin =? HIGH then prev_vswr b
    else Z.rem (prev_vswr b + 3) 100.
Proof.
  destruct (Z.eqb_spec (digitalRead hw switchPin) HIGH) as [Hsw|Hsw].
  - now rewrite loop_when_high.
  - now rewrite loop_when_not_high.
Qed.

Lemma loop_keeps_range (hw : Pins) (b : Board) :
  vswr_in_range b -> vswr_in_range (exec (loop hw) b).
Proof.
  unfold vswr_in_range. intros Hb. rewrite loop_counter.
  destruct (digitalRead hw switchPin =? HIGH); [exact Hb|].
  rewrite rem_step_nonneg by lia. apply Z.mod_pos_bound. lia.
Qed.

Lemma reachable_in_range (b : Board) : reachable b -> vswr_in_range b.
Proof.
  induction 1 as [|hw b _ IH].
  - unfold vswr_in_range. simpl. lia.
  - now apply loop_keeps_range.
Qed.

(** C7. The counter always lies in [0,100): it starts at 0, every call of
    the simulator returns and stores a value in [0,100) when it found one
    there, and so every board the sketch can reach has its counter in
    [0,100). *)
Theorem prev_vswr_always_in_range :
  prev_vswr power_on = 0
  /\ (forall b : Board,
        0 <= prev_vswr b < 100 ->
        0 <= eval get_vswr b < 100
        /\ 0 <= prev_vswr (exec get_vswr b) < 100)
  /\ (forall b : Board, reachable b -> 0 <= prev_vswr b < 100).
Proof.
  split; [reflexivity|]. split.
  - intros b Hb. rewrite get_vswr_returns, get_vswr_stores.
    rewrite rem_step_nonneg by lia.
    split; apply Z.mod_pos_bound; lia.
  - intros b Hb. exact (reachable_in_range b Hb).
Qed.

Lemma prev_vswr_always_in_range_witness :
  0 <= prev_vswr (exec (loop switch_closed) boot) < 100.
Proof.
  apply (proj2 (proj2 prev_vswr_always_in_range)).
  apply reach_loop. apply reach_boot.
Defined.

Lemma loop_state (hw : Pins) (b : Board) :
  state (exec (loop hw) b)
  = if digitalRead hw switchPin =? HIGH then MANUAL else AUTOMATED.
Proof.
  destruct (Z.eqb_spec (digitalRead hw switchPin) HIGH) as [Hsw|Hsw].
  - now rewrite loop_when_high.
  - now rewrite loop_when_not_high.
Qed.

Lemma loop_forgets_state (m : State) (hw : Pins) (b : Board) :
  exec (loop hw) (set_state m b) = exec (loop hw) b.
Proof.
  unfold exec, loop, parseSwitchState, bind. simpl.
  now destruct (digitalRead hw switchPin =? HIGH).
Qed.

Lemma loop_low_calls (hw : Pins) (b : Board) :
  digitalRead hw switchPin = LOW ->
  calls (exec (loop hw) b) = calls b ++ automated_cycle_calls.
Proof.
  intros Hsw. rewrite loop_when_not_high by (rewrite Hsw; discriminate).
  simpl. now rewrite <- !List.app_assoc.
Qed.

Lemma loop_high_calls (hw : Pins) (b : Board) :
  digitalRead hw switchPin = HIGH ->
  calls (exec (loop hw) b) = calls b ++ manual_cycle_calls.
Proof.
  intros Hsw. rewrite loop_when_high by exact Hsw.
  simpl. now rewrite <- !List.app_assoc.
Qed.

Lemma invocations_after (f : string) (b b' : Board) (l : list string) :
  calls b' = calls b ++ l ->
  invocations f b'
  = (invocations f b + List.length (List.filter (String.eqb f) l))%nat.
Proof.
  intros Hc. unfold invocations.
  now rewrite Hc, List.filter_app, List.length_app.
Qed.

Lemma rem_mod_step (c d : Z) :
  0 <= d ->
  Z.rem ((c + d) mod 100 + 3) 100 = (c + (d + 3)) mod 100.
Proof.
  intros Hd.
  pose proof (Z.mod_pos_bound (c + d) 100 ltac:(lia)) as Hm.
  rewrite rem_step_nonneg by lia.
  rewrite Z.add_mod_idemp_l by lia.
  f_equal. lia.
Qed.

(** ** The loop *)

(** C4. Whatever board the loop starts from, three iterations that each read
    the switch LOW enter the automated handler exactly three times and the
    manual handler not at all; each iteration replaces the counter [c] by
    [(c + 3) % 100], which from a counter in [0,100) is [(c + 3) mod 100],
    [(c + 6) mod 100] and [(c + 9) mod 100] in turn.  The mode held before
    an iteration has no influence on it: the iteration overwrites it with
    what the switch reads. *)
Theorem three_low_cycles (b : Board) (hw1 hw2 hw3 : Pins) :
  digitalRead hw1 switchPin = LOW ->
  digitalRead hw2 switchPin = LOW ->
  digitalRead hw3 switchPin = LOW ->
  let b1 := exec (loop hw1) b in
  let b2 := exec (loop hw2) b1 in
  let b3 := exec (loop hw3) b2 in
  run [hw1; hw2; hw3] b = b3
  /\ invocations "controlServosAutomated" b3
     = (invocations "controlServosAutomated" b + 3)%nat
  /\ invocations "controlServosManual" b3
     = invocations "controlServosManual" b
  /\ invocations "get_vswr" b3 = (invocations "get_vswr" b + 3)%nat
  /\ (prev_vswr b1 = Z.rem (prev_vswr b + 3) 100
      /\ prev_vswr b2 = Z.rem (prev_vswr b1 + 3) 100
      /\ prev_vswr b3 = Z.rem (prev_vswr b2 + 3) 100)
  /\ (0 <= prev_vswr b < 100 ->
      prev_vswr b1 = (prev_vswr b + 3) mod 100
      /\ prev_vswr b2 = (prev_vswr b + 6) mod 100
      /\ prev_vswr b3 = (prev_vswr b + 9) mod 100)
  /\ (state b1 = AUTOMATED /\ state b2 = AUTOMATED /\ state b3 = AUTOMATED)
  /\ (forall (m : State) (hw : Pins) (b0 : Board),
        exec (loop hw) (set_state m b0) = exec (loop hw) b0
        /\ state (exec (loop hw) b0) = eval (parseSwitchState hw) b0).
Proof.
  intros H1 H2 H3 b1 b2 b3.
  assert (Hc : calls b3 = calls b ++ automated_cycle_calls
                 ++ automated_cycle_calls ++ automated_cycle_calls).
  { subst b3 b2 b1. rewrite !loop_low_calls by assumption.
    now rewrite <- !List.app_assoc. }
  assert (Hp1 : prev_vswr b1 = Z.rem (prev_vswr b + 3) 100).
  { subst b1. rewrite loop_counter, H1. reflexivity. }
  assert (Hp2 : prev_vswr b2 = Z.rem (prev_vswr b1 + 3) 100).
  { subst b2. rewrite loop_counter, H2. reflexivity. }
  assert (Hp3 : prev_vswr b3 = Z.rem (prev_vswr b2 + 3) 100).
  { subst b3. rewrite loop_counter, H3. reflexivity. }
  split; [reflexivity|].
  split; [now rewrite (invocations_after _ b b3 _ Hc)|].
  split; [rewrite (invocations_after _ b b3 _ Hc); simpl; lia|].
  split; [now rewrite (invocations_after _ b b3 _ Hc)|].
  split; [now repeat split|].
  split.
  - intros Hb.
    assert (E1 : prev_vswr b1 = (prev_vswr b + 3) mod 100)
      by (rewrite Hp1; apply rem_step_nonneg; lia).
    assert (E2 : prev_vswr b2 = (prev_vswr b + 6) mod 100)
      by (rewrite Hp2, E1; apply rem_mod_step; lia).
    assert (E3 : prev_vswr b3 = (prev_vswr b + 9) mod 100)
      by (rewrite Hp3, E2; apply rem_mod_step; lia).
    now repeat split.
  - split.
    + subst b3 b2 b1. rewrite !loop_state, H1, H2, H3. now repeat split.
    + intros m hw b0. split.
      * apply loop_forgets_state.
      * rewrite loop_state, parseSwitchState_returns. reflexivity.
Qed.

Lemma three_low_cycles_witness :
  invocations "controlServosAutomated"
    (run [switch_closed; switch_closed; switch_closed] boot) = 3%nat
  /\ prev_vswr (run [switch_closed; switch_closed; switch_closed] boot) = 9.
Proof.
  pose proof (three_low_cycles boot switch_closed switch_closed switch_closed
                eq_refl eq_refl eq_refl) as H.
  cbv zeta in H.
  destruct H as [Hrun [Hauto [_ [_ [_ [Hmod _]]]]]].
  rewrite Hrun. split.
  - rewrite Hauto. reflexivity.
  - destruct Hmod as [_ [_ H9]]; [simpl; lia|].
    rewrite H9. reflexivity.
Defined.

(** ** The mode selector *)

(** C5. [parseSwitchState] answers for every reading of the switch pin:
    MANUAL exactly when the pin reads HIGH, and, the pin reading HIGH or
    LOW, AUTOMATED exactly when it reads LOW.  The mode variable holds
    MANUAL at power-on and still does when [loop] is first entered. *)
Theorem parseSwitchState_by_level :
  (forall (hw : Pins) (b : Board),
     eval (parseSwitchState hw) b = MANUAL
     <-> digitalRead hw switchPin = HIGH)
  /\ (forall (hw : Pins) (b : Board),
        In (digitalRead hw switchPin) [HIGH; LOW] ->
        (eval (parseSwitchState hw) b = AUTOMATED
         <-> digitalRead hw switchPin = LOW))
  /\ (forall (hw : Pins) (b : Board),
        eval (parseSwitchState hw) b = MANUAL
        \/ eval (parseSwitchState hw) b = AUTOMATED)
  /\ state power_on = MANUAL
  /\ state boot = MANUAL.
Proof.
  split; [|split; [|split; [|split; reflexivity]]].
  - intros hw b. rewrite parseSwitchState_returns.
    destruct (Z.eqb_spec (digitalRead hw switchPin) HIGH) as [E|E].
    + tauto.
    + split; [discriminate | contradiction].
  - intros hw b Hin. rewrite parseSwitchState_returns.
    destruct Hin as [E|[E|[]]]; rewrite <- E; simpl.
    + split; discriminate.
    + split; reflexivity.
  - intros hw b. rewrite parseSwitchState_returns.
    destruct (digitalRead hw switchPin =? HIGH); [now left | now right].
Qed.

Lemma parseSwitchState_by_level_witness :
  eval (parseSwitchState switch_closed) boot = AUTOMATED
  /\ eval (parseSwitchState switch_open) boot = MANUAL.
Proof.
  destruct parseSwitchState_by_level as [Hman [Hauto _]].
  split.
  - apply Hauto; [right; left|]; reflexivity.
  - apply Hman. reflexivity.
Defined.

(** ** The handlers *)

(** C6. Every run of the automated handler takes one sample [vswr] from the
    simulator, hands [map(vswr, 0, 1023, 0, 180)] to the tx servo and 0 to
    the ant servo, whatever the board it starts from. *)
Theorem controlServosAutomated_writes (b : Board) :
  let vswr := eval get_vswr b in
  let b' := exec controlServosAutomated b in
  vswr = Z.rem (prev_vswr b + 3) 100
  /\ prev_vswr b' = vswr
  /\ servo_written (tx_servo b') = Some (map vswr 0 1023 0 180)
  /\ servo_written (ant_servo b') = Some 0
  /\ invocations "get_vswr" b' = (invocations "get_vswr" b + 1)%nat.
Proof.
  cbv zeta. repeat split.
  rewrite (invocations_after _ b _ ["controlServosAutomated"; "get_vswr"]).
  - simpl. lia.
  - simpl. now rewrite <- List.app_assoc.
Qed.

Lemma map_counter_bound (v : Z) :
  0 <= v < 100 -> 0 <= map v 0 1023 0 180 <= 17.
Proof.
  intros Hv. rewrite map_scale_nonneg by lia. split.
  - apply Z.div_pos; lia.
  - apply Z.lt_succ_r. apply Z.div_lt_upper_bound; lia.
Qed.

Lemma automated_angle_from_range (b : Board) :
  vswr_in_range b ->
  exists a : Z,
    servo_written (tx_servo (exec controlServosAutomated b)) = Some a
    /\ 0 <= a <= 17.
Proof.
  unfold vswr_in_range. intros Hb.
  exists (map (Z.rem (prev_vswr b + 3) 100) 0 1023 0 180).
  split; [reflexivity|].
  apply map_counter_bound.
  rewrite rem_step_nonneg by lia. apply Z.mod_pos_bound. lia.
Qed.

(** C8. For every value the counter can hold, the tx angle the automated
    handler computes lies in [0,17]: this holds from every board whose
    counter is in [0,100), hence from every reachable board, and for every
    loop iteration that takes the automated branch from one. *)
Theorem automated_tx_angle_at_most_17 :
  (forall b : Board,
     0 <= prev_vswr b < 100 ->
     exists a : Z,
       servo_written (tx_servo (exec controlServosAutomated b)) = Some a
       /\ 0 <= a <= 17)
  /\ (forall b : Board,
        reachable b ->
        exists a : Z,
          servo_written (tx_servo (exec controlServosAutomated b)) = Some a
          /\ 0 <= a <= 17)
  /\ (forall (hw : Pins) (b : Board),
        reachable b ->
        digitalRead hw switchPin <> HIGH ->
        exists a : Z,
          servo_written (tx_servo (exec (loop hw) b)) = Some a
          /\ 0 <= a <= 17).
Proof.
  split; [|split].
  - intros b Hb. now apply automated_angle_from_range.
  - intros b Hb. apply automated_angle_from_range.
    now apply reachable_in_range.
  - intros hw b Hb Hsw. rewrite loop_when_not_high by exact Hsw.
    apply reachable_in_range in Hb.
    exact (automated_angle_from_range
             (set_state AUTOMATED
                (exec (enter "parseSwitchState") (exec (enter "loop") b)))
             Hb).
Qed.

Lemma automated_tx_angle_at_most_17_witness :
  exists a : Z,
    servo_written (tx_servo (exec (loop switch_closed) boot)) = Some a
    /\ 0 <= a <= 17.
Proof.
  apply (proj2 (proj2 automated_tx_angle_at_most_17)).
  - apply reach_boot.
  - discriminate.
Defined.

(** C9. With the tx dial reading 512 and the ant dial reading 1023, the
    manual handler hands 90 to the tx servo and 180 to the ant servo. *)
Theorem controlServosManual_512_1023 (hw : Pins) (b : Board) :
  analogRead hw tx_dialPin = 512 ->
  analogRead hw ant_dialPin = 1023 ->
  servo_written (tx_servo (exec (controlServosManual hw) b)) = Some 90
  /\ servo_written (ant_servo (exec (controlServosManual hw) b)) = Some 180.
Proof.
  intros Htx Hant. unfold exec, controlServosManual, bind. simpl.
  rewrite Htx, Hant. split; reflexivity.
Qed.

Lemma controlServosManual_512_1023_witness :
  analogRead switch_open tx_dialPin = 512
  /\ analogRead switch_open ant_dialPin = 1023
  /\ servo_written (tx_servo (exec (controlServosManual switch_open) boot))
     = Some 90
  /\ servo_written (ant_servo (exec (controlServosManual switch_open) boot))
     = Some 180.
Proof.
  split; [reflexivity|]. split; [reflexivity|].
  apply (controlServosManual_512_1023 switch_open boot); reflexivity.
Defined.

Lemma run_all_high_counter (hws : list Pins) (b : Board) :
  Forall (fun hw => digitalRead hw switchPin = HIGH) hws ->
  prev_vswr (run hws b) = prev_vswr b.
Proof.
  intros Hall. revert b.
  induction Hall as [|hw rest Hhw _ IH]; intros b; simpl.
  - reflexivity.
  - rewrite IH, loop_counter, Hhw. reflexivity.
Qed.

(** C10. The manual handler leaves the counter as it found it; so does any
    run of loop iterations that all read the switch HIGH; and an iteration
    that does change the counter is one that took the automated branch. *)
Theorem manual_leaves_counter :
  (forall (hw : Pins) (b : Board),
     prev_vswr (exec (controlServosManual hw) b) = prev_vswr b
     /\ invocations "get_vswr" (exec (controlServosManual hw) b)
        = invocations "get_vswr" b)
  /\ (forall (hws : list Pins) (b : Board),
        Forall (fun hw => digitalRead hw switchPin = HIGH) hws ->
        prev_vswr (run hws b) = prev_vswr b)
  /\ (forall (hw : Pins) (b : Board),
        prev_vswr (exec (loop hw) b) <> prev_vswr b ->
        state (exec (loop hw) b) = AUTOMATED).
Proof.
  split; [|split].
  - intros hw b. split; [reflexivity|].
    rewrite (invocations_after _ b _ ["controlServosManual"]) by reflexivity.
    simpl. lia.
  - intros hws b Hall. now apply run_all_high_counter.
  - intros hw b. rewrite loop_counter, loop_state.
    destruct (digitalRead hw switchPin =? HIGH); [contradiction | reflexivity].
Qed.

Lemma manual_leaves_counter_witness :
  prev_vswr (run [switch_open; switch_open] (exec (loop switch_closed) boot))
  = 3.
Proof.
  rewrite (proj1 (proj2 manual_leaves_counter)).
  - reflexivity.
  - repeat constructor.
Defined.

(** * Further properties of whole runs *)

Lemma run_app (l1 l2 : list Pins) (b : Board) :
  run (l1 ++ l2) b = run l2 (run l1 b).
Proof.
  revert b. induction l1 as [|hw l1 IH]; intros b; simpl.
  - reflexivity.
  - apply IH.
Qed.

Lemma loop_elapsed (hw : Pins) (b : Board) :
  elapsed (exec (loop hw) b) = elapsed b + 1000.
Proof.
  destruct (Z.eqb_spec (digitalRead hw switchPin) HIGH) as [Hsw|Hsw].
  - now rewrite loop_when_high.
  - now rewrite loop_when_not_high.
Qed.

(** X1. Every iteration of [loop] spends exactly 1000 ms in [delay],
    whichever branch it takes: a run of [n] iterations adds [1000 * n] to
    the time spent waiting, and [setup] adds none. *)
Theorem run_elapsed (hws : list Pins) (b : Board) :
  elapsed (run hws b) = elapsed b + 1000 * Z.of_nat (List.length hws)
  /\ elapsed (run hws boot) = 1000 * Z.of_nat (List.length hws).
Proof.
  assert (H : forall l b0,
             elapsed (run l b0) = elapsed b0 + 1000 * Z.of_nat (List.length l)).
  { induction l as [|hw l IH]; intros b0.
    - simpl. lia.
    - cbn [run List.length]. rewrite IH, loop_elapsed. lia. }
  split; [apply H|]. rewrite H. reflexivity.
Qed.

Lemma run_keeps_range (hws : list Pins) (b : Board) :
  vswr_in_range b -> vswr_in_range (run hws b).
Proof.
  revert b. induction hws as [|hw rest IH]; intros b Hb; simpl.
  - exact Hb.
  - apply IH. now apply loop_keeps_range.
Qed.

Lemma run_counter_value (hws : list Pins) (b : Board) :
  vswr_in_range b ->
  prev_vswr (run hws b)
  = (prev_vswr b + 3 * Z.of_nat (automated_cycles hws)) mod 100.
Proof.
  revert b. induction hws as [|hw rest IH]; intros b Hb.
  - unfold vswr_in_range in Hb. simpl. rewrite Z.add_0_r.
    symmetry. now apply Z.mod_small.
  - cbn [run]. rewrite IH by now apply loop_keeps_range.
    rewrite loop_counter. unfold automated_cycles. cbn [List.filter].
    change (digitalRead hw switchPin =? HIGH) with (reads_high hw).
    unfold vswr_in_range in Hb.
    destruct (reads_high hw); cbn [negb].
    + reflexivity.
    + cbn [List.length]. rewrite rem_step_nonneg by lia.
      rewrite Z.add_mod_idemp_l by lia. f_equal. lia.
Qed.

(** X2. From a counter [c] in [0,100), a run leaves the counter at
    [(c + 3 * a) mod 100], where [a] is the number of its iterations that
    did not read the switch HIGH; iterations that read HIGH do not count. *)
Theorem run_counter (hws : list Pins) (b : Board) :
  0 <= prev_vswr b < 100 ->
  prev_vswr (run hws b)
  = (prev_vswr b + 3 * Z.of_nat (automated_cycles hws)) mod 100.
Proof.
  intros Hb. now apply run_counter_value.
Qed.

Lemma run_counter_witness :
  prev_vswr (run [switch_closed; switch_open; switch_closed] boot) = 6.
Proof.
  rewrite (run_counter [switch_closed; switch_open; switch_closed] boot).
  - reflexivity.
  - simpl. lia.
Defined.

Lemma loop_calls (hw : Pins) (b : Board) :
  calls (exec (loop hw) b)
  = calls b
    ++ (if reads_high hw then manual_cycle_calls else automated_cycle_calls).
Proof.
  unfold reads_high.
  destruct (Z.eqb_spec (digitalRead hw switchPin) HIGH) as [Hsw|Hsw].
  - now apply loop_high_calls.
  - rewrite loop_when_not_high by exact Hsw.
    simpl. now rewrite <- !List.app_assoc.
Qed.

Lemma loop_invocations (f : string) (hw : Pins) (b : Board) :
  invocations f (exec (loop hw) b)
  = (invocations f b
     + List.length
         (List.filter (String.eqb f)
            (if reads_high hw then manual_cycle_calls
             else automated_cycle_calls)))%nat.
Proof.
  apply invocations_after. apply loop_calls.
Qed.

(** X3. Every iteration of [loop] reads the switch once and enters exactly
    one handler: over a run, [parseSwitchState] is entered once per
    iteration, [controlServosManual] once per iteration that read HIGH,
    [controlServosAutomated] and [get_vswr] once per iteration that did
    not, and [setup] never. *)
Theorem run_invocations (hws : list Pins) (b : Board) :
  invocations "parseSwitchState" (run hws b)
  = (invocations "parseSwitchState" b + List.length hws)%nat
  /\ invocations "controlServosManual" (run hws b)
     = (invocations "controlServosManual" b + manual_cycles hws)%nat
  /\ invocations "controlServosAutomated" (run hws b)
     = (invocations "controlServosAutomated" b + automated_cycles hws)%nat
  /\ invocations "get_vswr" (run hws b)
     = (invocations "get_vswr" b + automated_cycles hws)%nat
  /\ invocations "setup" (run hws b) = invocations "setup" b
  /\ (manual_cycles hws + automated_cycles hws = List.length hws)%nat.
Proof.
  revert b. induction hws as [|hw rest IH]; intros b.
  - unfold manual_cycles, automated_cycles. simpl. repeat split; lia.
  - cbn [run]. destruct (IH (exec (loop hw) b)) as (Hp & Hm & Ha & Hg & Hs & Hl).
    rewrite Hp, Hm, Ha, Hg, Hs, !loop_invocations.
    unfold manual_cycles, automated_cycles in *. cbn [List.filter List.length].
    destruct (reads_high hw); simpl; repeat split; lia.
Qed.

(** ** The simulator's cycle *)

Lemma steps_to_value (c v : Z) :
  0 <= c < 100 -> 0 <= v < 100 ->
  exists k : nat, (k < 100)%nat /\ (c + 3 * Z.of_nat k) mod 100 = v.
Proof.
  intros Hc Hv.
  pose proof (Z.mod_pos_bound (67 * (v - c)) 100 ltac:(lia)) as Hm.
  exists (Z.to_nat ((67 * (v - c)) mod 100)). split; [lia|].
  rewrite Z2Nat.id by lia.
  symmetry.
  apply (Z.mod_unique_pos _ _ (2 * (v - c) - 3 * (67 * (v - c) / 100)));
    [exact Hv|].
  rewrite Z.mod_eq by lia. lia.
Qed.

Lemma no_short_cycle (c : Z) (k : nat) :
  0 <= c < 100 -> (0 < k < 100)%nat -> (c + 3 * Z.of_nat k) mod 100 <> c.
Proof.
  intros Hc Hk Heq.
  rewrite Z.mod_eq in Heq by lia.
  assert (Hq : 3 * Z.of_nat k = 100 * ((c + 3 * Z.of_nat k) / 100)) by lia.
  lia.
Qed.

(** X4. The simulator runs through all of [0,100) with period exactly 100:
    from a counter in [0,100), 100 calls of [get_vswr] bring the counter
    back, no smaller positive number of calls does, and every value of
    [0,100) is reached within 99 calls. *)
Theorem get_vswr_full_cycle (b : Board) :
  0 <= prev_vswr b < 100 ->
  prev_vswr (get_vswr_times 100 b) = prev_vswr b
  /\ (forall k : nat,
        (0 < k < 100)%nat -> prev_vswr (get_vswr_times k b) <> prev_vswr b)
  /\ (forall v : Z,
        0 <= v < 100 ->
        exists k : nat,
          (k < 100)%nat /\ prev_vswr (get_vswr_times k b) = v).
Proof.
  intros Hb. split; [|split].
  - rewrite get_vswr_times_value by exact Hb.
    replace (prev_vswr b + 3 * Z.of_nat 100) with (prev_vswr b + 3 * 100)
      by lia.
    rewrite Z.mod_add by lia. now apply Z.mod_small.
  - intros k Hk. rewrite get_vswr_times_value by exact Hb.
    now apply no_short_cycle.
  - intros v Hv. destruct (steps_to_value (prev_vswr b) v Hb Hv) as [k [Hk E]].
    exists k. split; [exact Hk|].
    now rewrite get_vswr_times_value by exact Hb.
Qed.

Lemma get_vswr_full_cycle_witness :
  prev_vswr (get_vswr_times 100 boot) = 0.
Proof.
  assert (Hb : 0 <= prev_vswr boot < 100) by (simpl; lia).
  exact (proj1 (get_vswr_full_cycle boot Hb)).
Defined.

(** ** The scaling step, seen from the dial *)



(** The least raw value that scales to angle [a]. *)
Lemma map_preimage (a : Z) :
  0 <= a <= 180 ->
  0 <= (a * 1023 + 179) / 180 <= 1023
  /\ map ((a * 1023 + 179) / 180) 0 1023 0 180 = a
  /\ (a <= 17 -> (a * 1023 + 179) / 180 < 100).
Proof.
  intros Ha.
  pose proof (Z.div_mod (a * 1023 + 179) 180 ltac:(lia)) as Hdm.
  pose proof (Z.mod_pos_bound (a * 1023 + 179) 180 ltac:(lia)) as Hm.
  set (r := (a * 1023 + 179) / 180) in *.
  assert (Hr : 0 <= r <= 1023) by lia.
  split; [exact Hr|]. split.
  - rewrite map_scale_nonneg by lia.
    symmetry. apply (Z.div_unique_pos _ _ _ (r * 180 - 1023 * a)); lia.
  - intros H17. lia.
Qed.



(** ** What a whole run does to the servos *)

Lemma run_snoc (hws : list Pins) (hw : Pins) (b : Board) :
  run (hws ++ [hw]) b = exec (loop hw) (run hws b).
Proof.
  now rewrite run_app.
Qed.

Lemma loop_automated_tx (hw : Pins) (b : Board) :
  digitalRead hw switchPin <> HIGH ->
  servo_written (tx_servo (exec (loop hw) b))
  = Some (map (prev_vswr (exec (loop hw) b)) 0 1023 0 180)
  /\ servo_written (ant_servo (exec (loop hw) b)) = Some 0.
Proof.
  intros Hsw. rewrite loop_when_not_high by exact Hsw. split; reflexivity.
Qed.

Lemma loop_manual_servos (hw : Pins) (b : Board) :
  digitalRead hw switchPin = HIGH ->
  servo_written (tx_servo (exec (loop hw) b))
  = Some (map (analogRead hw tx_dialPin) 0 1023 0 180)
  /\ servo_written (ant_servo (exec (loop hw) b))
     = Some (map (analogRead hw ant_dialPin) 0 1023 0 180).
Proof.
  intros Hsw. rewrite loop_when_high by exact Hsw. split; reflexivity.
Qed.

Lemma automated_cycles_repeat (hw : Pins) (n : nat) :
  digitalRead hw switchPin <> HIGH ->
  automated_cycles (List.repeat hw n) = n.
Proof.
  intros Hsw. apply Z.eqb_neq in Hsw.
  unfold automated_cycles. induction n as [|n IH]; simpl.
  - reflexivity.
  - unfold reads_high at 1. rewrite Hsw. simpl. now rewrite IH.
Qed.

(** X6. Held in automated mode, the tx servo sweeps exactly the angles 0 to
    17: from any board with its counter in [0,100), and for a switch
    reading other than HIGH, every angle of [0,17] is the one handed to the
    tx servo after some number (between 1 and 100) of iterations. *)
Theorem automated_sweep_reaches (hw : Pins) (b : Board) (a : Z) :
  digitalRead hw switchPin <> HIGH ->
  0 <= prev_vswr b < 100 ->
  0 <= a <= 17 ->
  exists k : nat,
    (k < 100)%nat
    /\ servo_written (tx_servo (run (List.repeat hw (S k)) b)) = Some a.
Proof.
  intros Hsw Hb Ha.
  destruct (map_preimage a ltac:(lia)) as [Hr [Hmap Hlt]].
  specialize (Hlt ltac:(lia)).
  set (v := (a * 1023 + 179) / 180) in *.
  pose proof (Z.mod_pos_bound (prev_vswr b + 3) 100 ltac:(lia)) as Hc1.
  destruct (steps_to_value ((prev_vswr b + 3) mod 100) v Hc1 ltac:(lia))
    as [k [Hk E]].
  exists k. split; [exact Hk|].
  cbn [List.repeat]. rewrite List.repeat_cons, run_snoc.
  destruct (loop_automated_tx hw (run (List.repeat hw k) b) Hsw) as [Htx _].
  rewrite Htx. rewrite <- run_snoc, <- List.repeat_cons.
  change (hw :: List.repeat hw k) with (List.repeat hw (S k)).
  rewrite run_counter_value by exact Hb.
  rewrite automated_cycles_repeat by exact Hsw.
  rewrite Z.add_mod_idemp_l in E by lia.
  replace (prev_vswr b + 3 * Z.of_nat (S k))
    with (prev_vswr b + 3 + 3 * Z.of_nat k) by lia.
  rewrite E. now rewrite Hmap.
Qed.

Lemma automated_sweep_reaches_witness :
  exists k : nat,
    (k < 100)%nat
    /\ servo_written (tx_servo (run (List.repeat switch_closed (S k)) boot))
       = Some 17.
Proof.
  apply (automated_sweep_reaches switch_closed boot 17).
  - discriminate.
  - simpl. lia.
  - lia.
Defined.




(** ** What [setup] establishes and [loop] keeps *)

Lemma loop_keeps_wiring (hw : Pins) (b : Board) :
  servo_pin (tx_servo (exec (loop hw) b)) = servo_pin (tx_servo b)
  /\ servo_pin (ant_servo (exec (loop hw) b)) = servo_pin (ant_servo b)
  /\ serial_baud (exec (loop hw) b) = serial_baud b
  /\ pin_modes (exec (loop hw) b) = pin_modes b.
Proof.
  destruct (Z.eqb_spec (digitalRead hw switchPin) HIGH) as [Hsw|Hsw].
  - rewrite loop_when_high by exact Hsw. now repeat split.
  - rewrite loop_when_not_high by exact Hsw. now repeat split.
Qed.

(** X8. On every board the sketch can reach, the wiring is the one [setup]
    made: the tx servo is attached to pin 0 and the ant servo to pin 23,
    the serial port runs at 9600 baud, the only pin mode set is
    INPUT_PULLUP on the switch pin 32, and [setup] has run exactly once.
    No iteration of [loop] re-attaches a servo or reconfigures a pin. *)
Theorem reachable_wiring (b : Board) :
  reachable b ->
  servo_pin (tx_servo b) = Some 0
  /\ servo_pin (ant_servo b) = Some 23
  /\ serial_baud b = Some 9600
  /\ pin_modes b = [(32, INPUT_PULLUP)]
  /\ invocations "setup" b = 1%nat.
Proof.
  induction 1 as [|hw b _ IH].
  - now repeat split.
  - destruct IH as (Htx & Hant & Hbaud & Hmodes & Hsetup).
    destruct (loop_keeps_wiring hw b) as (Ktx & Kant & Kbaud & Kmodes).
    rewrite Ktx, Kant, Kbaud, Kmodes, loop_invocations, Hsetup.
    repeat split; try assumption.
    destruct (reads_high hw); reflexivity.
Qed.

Lemma reachable_wiring_witness :
  servo_pin (tx_servo (exec (loop switch_open) boot)) = Some 0.
Proof.
  apply (reachable_wiring (exec (loop switch_open) boot)).
  apply reach_loop. apply reach_boot.
Defined.

(** ** The diagnostic stream *)

Lemma loop_serial (hw : Pins) (b : Board) :
  exists l : list SerialItem,
    Serial (exec (loop hw) b) = Serial b ++ l
    /\ List.length (List.filter is_println l) = 1%nat
    /\ List.length l = (if reads_high hw then 8 else 4)%nat
    /\ List.last l (print_int 0)
       = println_int
           (if reads_high hw then map (analogRead hw ant_dialPin) 0 1023 0 180
            else map (prev_vswr (exec (loop hw) b)) 0 1023 0 180).
Proof.
  unfold reads_high.
  destruct (Z.eqb_spec (digitalRead hw switchPin) HIGH) as [Hsw|Hsw].
  - rewrite loop_when_high by exact Hsw. simpl.
    rewrite <- !List.app_assoc. simpl.
    eexists. split; [reflexivity|]. now repeat split.
  - rewrite loop_when_not_high by exact Hsw. simpl.
    rewrite <- !List.app_assoc. simpl.
    eexists. split; [reflexivity|]. now repeat split.
Qed.

(** X9. The serial stream is append-only and carries one line per
    iteration: a run leaves everything printed before it in place and adds
    behind it 4 [Serial] calls per automated iteration and 8 per manual
    one, exactly one of them a [println] in each iteration. *)
Theorem run_serial (hws : list Pins) (b : Board) :
  exists l : list SerialItem,
    Serial (run hws b) = Serial b ++ l
    /\ List.length (List.filter is_println l) = List.length hws
    /\ List.length l
       = (4 * automated_cycles hws + 8 * manual_cycles hws)%nat.
Proof.
  revert b. induction hws as [|hw rest IH]; intros b.
  - exists []. simpl. rewrite List.app_nil_r. now repeat split.
  - cbn [run].
    destruct (loop_serial hw b) as (l1 & E1 & P1 & L1 & _).
    destruct (IH (exec (loop hw) b)) as (l2 & E2 & P2 & L2).
    exists (l1 ++ l2). split; [|split].
    + now rewrite E2, E1, List.app_assoc.
    + rewrite List.filter_app, List.length_app, P1, P2. reflexivity.
    + rewrite List.length_app, L1, L2.
      unfold automated_cycles, manual_cycles. cbn [List.filter].
      destruct (reads_high hw); simpl; lia.
Qed.

(** X10. Each iteration's diagnostic line ends with the angle it has just
    handed to a servo: after an automated iteration the last [Serial] call
    is the [println] of the tx angle written, after a manual iteration the
    [println] of the ant angle written. *)
Theorem loop_reports_written_angle (hw : Pins) (b : Board) :
  exists (l : list SerialItem) (a : Z),
    Serial (exec (loop hw) b) = Serial b ++ l
    /\ List.last l (print_int 0) = println_int a
    /\ (if reads_high hw
        then servo_written (ant_servo (exec (loop hw) b))
        else servo_written (tx_servo (exec (loop hw) b))) = Some a.
Proof.
  destruct (loop_serial hw b) as (l & E & _ & _ & Hlast).
  exists l. eexists. split; [exact E|]. split; [exact Hlast|].
  unfold reads_high.
  destruct (Z.eqb_spec (digitalRead hw switchPin) HIGH) as [Hsw|Hsw].
  - now destruct (loop_manual_servos hw b Hsw).
  - now destruct (loop_automated_tx hw b Hsw).
Qed.

(** ** What an iteration depends on *)


